(** * Recipe chatbot backend: the conversation-completion adapter

    A shallow embedding of [backend/utils.py]: the module-level constants
    ([SYSTEM_PROMPT], [MODEL_NAME]) and the function [get_agent_response],
    once over message values and once over a store of Python list and dict
    objects, with the properties of the system-prompt injection, the reply
    extraction and the configuration lookup. *)

From Stdlib Require Import NArith String Ascii.
From stdpp Require Import base option list gmap fin_maps.

Local Open Scope N_scope.
Set Warnings "-register-all".

(** ** Python strings

    A Python [str] is a sequence of Unicode code points.  Literals of the
    source are all ASCII and are written as Rocq strings through [py]. *)

Abbreviation pystr := (list N).

Definition py (s : string) : pystr :=
  (fun a => N_of_ascii a) <$> list_ascii_of_string s.
Arguments py : simpl never.

(** [str.isspace] on one code point: the table of CPython's
    [_PyUnicode_IsWhitespace], which [str.strip()] with no argument uses. *)
Definition py_isspace (c : N) : bool :=
  ((0x09 <=? c) && (c <=? 0x0D))
  || ((0x1C <=? c) && (c <=? 0x20))
  || (c =? 0x85) || (c =? 0xA0) || (c =? 0x1680)
  || ((0x2000 <=? c) && (c <=? 0x200A))
  || (c =? 0x2028) || (c =? 0x2029) || (c =? 0x202F)
  || (c =? 0x205F) || (c =? 0x3000).

(** [str.lstrip()]: drop the leading run of whitespace. *)
Fixpoint lstrip (s : pystr) : pystr :=
  match s with
  | [] => []
  | c :: s' => if py_isspace c then lstrip s' else s
  end.

(** [str.rstrip()]: drop the trailing run of whitespace. *)
Definition rstrip (s : pystr) : pystr := reverse (lstrip (reverse s)).

(** [str.strip()]: both ends. *)
Definition strip (s : pystr) : pystr := rstrip (lstrip s).

(** ** Constants of the module *)

Definition SYSTEM_PROMPT : pystr := py "
    You are a friendly and creative culinary assistant specializing in suggesting easy-to-follow recipes.

    ## Rules
    1. Present only one recipe at a time. If the user doesn't specify what ingredients they have available, assume only basic ingredients are available
    2. Be descriptive in the steps of the recipe, so it is easy to follow
    3. Have variety in your recipes, don't just recommend the same thing over and over
    4. You MUST suggest a complete recipe; don't ask follow-up questions
    5. Mention the serving size in the recipe. If not specified, assume 2 people

    ## Always do:
    1. Be specific, do not use words like pinch or accrording to taste
    2. Always provide ingredient lists with precise measurements using standard units
    3. Always include clear, step-by-step instruction

    ## Never do:
    1. Never suggest recipes that require extremely rare or unobtainable ingredients without providing readily available alternatives
    2. Never use offensive or derogatory language
    3. If a user asks for a recipe that is unsafe, unethical, or promotes harmful activities, politely decline and state you cannot fulfill that request, without being preachy
    
    ## New Ideas
    1. Feel free to suggest common variations or substitutions for ingredients. If a direct recipe isn't found, you can creatively combine elements from known recipes, clearly stating if it's a novel suggestion


    ## Output Formatting
    1. Structure all your recipe responses clearly using Markdown for formatting
    2. Begin every recipe response with the recipe name as a Level 2 Heading (e.g., ## Amazing Blueberry Muffins)
    3. Immediately follow with a brief, enticing description of the dish (1-3 sentences)
    4. Next, include a section titled ### Ingredients. List all ingredients using a Markdown unordered list (bullet points)
    5. Following ingredients, include a section titled ### Instructions. Provide step-by-step directions using a Markdown ordered list (numbered steps)
    6. Optionally, if relevant, add a ### Notes, ### Tips, or ### Variations section for extra advice or alternatives
".


Example SYSTEM_PROMPT_length : length SYSTEM_PROMPT = 2134%nat.
Proof. vm_compute. reflexivity. Qed.

(** ** Python values, exceptions and results *)

(** What a subscript was asked for: a string key or an integer index. *)
Inductive pykey :=
| KStr (s : pystr)
| KInt (i : nat).

(** The exceptions the function can end in.  [ServiceError] stands for
    whatever [litellm.completion] raises (transport, authentication, quota,
    malformed response), named by its class. *)
Inductive exn :=
| KeyError (k : pykey)
| IndexError
| TypeError
| AttributeError
| ServiceError (cls : pystr).

Inductive result (A : Type) :=
| Return (a : A)
| Raise (e : exn).
Arguments Return {A} a.
Arguments Raise {A} e.

#[global] Instance result_ret : MRet result := fun A (a : A) => Return a.

#[global] Instance result_bind : MBind result :=
  fun A B (k : A → result B) (r : result A) =>
    match r with
    | Return a => k a
    | Raise e => Raise e
    end.

(** The completion object, read as the nested mappings and lists that the
    subscripts of the source take it for. *)
Inductive pyval :=
| PyNone
| PyStr (s : pystr)
| PyList (l : list pyval)
| PyDict (d : gmap pystr pyval).

(** [v[k]] for a string key [k]. *)
Definition getitem_str (v : pyval) (k : pystr) : result pyval :=
  match v with
  | PyDict d =>
      match d !! k with
      | Some x => Return x
      | None => Raise (KeyError (KStr k))
      end
  | PyNone | PyStr _ | PyList _ => Raise TypeError
  end.

(** [v[i]] for a non-negative integer index [i]. *)
Definition getitem_int (v : pyval) (i : nat) : result pyval :=
  match v with
  | PyList l =>
      match l !! i with
      | Some x => Return x
      | None => Raise IndexError
      end
  | PyStr s =>
      match s !! i with
      | Some c => Return (PyStr [c])
      | None => Raise IndexError
      end
  | PyDict _ => Raise (KeyError (KInt i))
  | PyNone => Raise TypeError
  end.

(** [v.strip()]: only a [str] has the method. *)
Definition call_strip (v : pyval) : result pystr :=
  match v with
  | PyStr s => Return (strip s)
  | PyNone | PyList _ | PyDict _ => Raise AttributeError
  end.

(** ** Messages *)

(** Locations of the objects of the store (see below). *)
Abbreviation loc := positive.


(** A message is a [Dict[str, str]]. *)
Abbreviation message := (gmap pystr pystr).

(** [d[k]] on a message. *)
Definition message_getitem (d : message) (k : pystr) : result pystr :=
  match d !! k with
  | Some x => Return x
  | None => Raise (KeyError (KStr k))
  end.

(** The dict display [{"role": role, "content": content}]. *)
Definition make_message (role content : pystr) : message :=
  <[py "content" := content]> (<[py "role" := role]> ∅).

Definition system_message : message := make_message (py "system") SYSTEM_PROMPT.

Definition assistant_message (content : pystr) : message :=
  make_message (py "assistant") content.

(** ** The error monad over a state *)

Definition M (St A : Type) : Type := St → result A * St.

#[global] Instance M_ret {St} : MRet (M St) :=
  fun A (a : A) st => (Return a, st).

#[global] Instance M_bind {St} : MBind (M St) :=
  fun A B (k : A → M St B) (m : M St A) st =>
    match m st with
    | (Return a, st') => k a st'
    | (Raise e, st') => (Raise e, st')
    end.

(** [raise e]. *)
Definition raise {St A} (e : exn) : M St A := fun st => (Raise e, st).

(** A computation that reads no state and may raise, run inside [M]. *)
Definition lift {St A} (r : result A) : M St A := fun st => (r, st).

(** ** Configuration (lines 16 and 55) *)

(** [os.environ]. *)
Abbreviation environ := (gmap pystr pystr).

(** [load_dotenv(override=False)] of the python-dotenv package: every
    variable the file defines and the process environment lacks is added to
    the environment; a variable that is already set keeps its value, and a
    missing file ([None]) adds nothing. *)
Definition load_dotenv (dotenv : option environ) (os_environ : environ) : environ :=
  match dotenv with
  | None => os_environ
  | Some file => os_environ ∪ file
  end.

(** [os.environ.get(key, fallback)]. *)
Definition environ_get (os_environ : environ) (key fallback : pystr) : pystr :=
  default fallback (os_environ !! key).

(** The globals of the module that are read from the environment. *)
Record utils_module := UtilsModule {
  MODEL_NAME : pystr
}.

(** Loading the module: the file is read first, then the variable.  The
    environment as [load_dotenv] left it is returned beside the module. *)
Definition import_utils (dotenv : option environ) (os_environ : environ)
  : utils_module * environ :=
  let os_environ := load_dotenv dotenv os_environ in
  (UtilsModule (environ_get os_environ (py "MODEL_NAME") (py "gpt-4o-mini")),
   os_environ).

(** ** The completion service *)

(** What one call of [litellm.completion] is given. *)
Record request := Request {
  req_model : pystr;
  req_messages : list message
}.

(** The test of line 78, [not messages or messages[0]["role"] != "system"]:
    [or] reads [messages[0]] only when the list is not empty, and
    [messages[0]["role"]] raises [KeyError] on a dict without that key. *)
Definition lacks_system_message (messages : list message) : result bool :=
  match messages with
  | [] => mret true
  | first :: _ =>
      role ← message_getitem first (py "role");
      mret (bool_decide (role ≠ py "system"))
  end.

(** Lines 77 to 81: the sequence that is sent to the service. *)
Definition effective_messages (messages : list message) : result (list message) :=
  c ← lacks_system_message messages;
  if c : bool
  then mret ([system_message] ++ messages)
  else mret messages.

(** Lines 88 to 91: [completion["choices"][0]["message"]["content"]] ... *)
Definition completion_content (completion : pyval) : result pyval :=
  choices ← getitem_str completion (py "choices");
  choice ← getitem_int choices 0;
  msg ← getitem_str choice (py "message");
  getitem_str msg (py "content").

(** ... followed by [.strip()]. *)
Definition extract_reply (completion : pyval) : result pystr :=
  content ← completion_content completion;
  call_strip content.

Section Adapter.

(** The service behind [litellm.completion]: a state of its own, and for
    each request a completion object or an exception. *)
Variable S : Type.
Variable service : S → request → result pyval * S.

(** The loaded module, whose global [MODEL_NAME] the function reads. *)
Variable utils : utils_module.

(** The world outside the function: the service, and the requests that
    were sent to it so far, oldest first. *)
Record world := World {
  svc : S;
  outbound : list request
}.

(** [litellm.completion(model=..., messages=...)]. *)
Definition litellm_completion (model : pystr) (messages : list message)
  : M world pyval :=
  fun w =>
    let req := Request model messages in
    let '(r, s') := service (svc w) req in
    (r, World s' (outbound w ++ [req])).

(** [get_agent_response] over message values. *)
Definition get_agent_response (messages : list message)
  : M world (list message) :=
  current_messages ← lift (effective_messages messages);
  completion ← litellm_completion (MODEL_NAME utils) current_messages;
  assistant_reply_content ← lift (extract_reply completion);
  let updated_messages :=
    current_messages ++ [assistant_message assistant_reply_content] in
  mret updated_messages.

(** *** The same function over a store of objects

    Lists and dicts are objects of a store, named by their locations; a
    list holds the locations of its items, so two lists can share a dict
    and two variables can name one list. *)

Inductive obj :=
| OList (items : list loc)
| ODict (d : message).

Record state := State {
  store : gmap loc obj;
  outside : world
}.

(** A new object, at a location the store does not use yet. *)
Definition alloc (o : obj) : M state loc :=
  fun st =>
    let l := fresh (dom (store st)) in
    (Return l, State (<[l := o]> (store st)) (outside st)).

(** The items of the list at [l]; any other object there is a
    [TypeError]. *)
Definition read_list (l : loc) : M state (list loc) :=
  fun st =>
    match store st !! l with
    | Some (OList items) => (Return items, st)
    | _ => (Raise TypeError, st)
    end.

(** The dict at [l]. *)
Definition read_dict (l : loc) : M state message :=
  fun st =>
    match store st !! l with
    | Some (ODict d) => (Return d, st)
    | _ => (Raise TypeError, st)
    end.

(** [a + b] on lists: a new list of the items of both. *)
Definition list_add (a b : loc) : M state loc :=
  xs ← read_list a;
  ys ← read_list b;
  alloc (OList (xs ++ ys)).

(** [l[0]] on a list. *)
Definition list_first (items : list loc) : M state loc :=
  match items !! 0%nat with
  | Some x => mret x
  | None => raise IndexError
  end.

(** The dict a list item names. *)
Definition deref (h : gmap loc obj) (i : loc) : option message :=
  match h !! i with
  | Some (ODict d) => Some d
  | _ => None
  end.

(** What a reader of the list at [l] sees: its messages in order. *)
Definition snapshot (h : gmap loc obj) (l : loc) : option (list message) :=
  match h !! l with
  | Some (OList items) => mapM (deref h) items
  | _ => None
  end.

(** The call of the service on the list at [messages]: the service reads
    the list and changes no object of the store.  A list that holds anything
    but dicts is outside the type of the function, [List[Dict[str, str]]];
    the call on one is taken to end in a [TypeError]. *)
Definition litellm_completion_at (model : pystr) (messages : loc)
  : M state pyval :=
  fun st =>
    match snapshot (store st) messages with
    | None => (Raise TypeError, st)
    | Some ms =>
        let '(r, w') := litellm_completion model ms (outside st) in
        (r, State (store st) w')
    end.

(** The test of line 78. *)
Definition lacks_system_message_at (messages : loc) : M state bool :=
  items ← read_list messages;
  match items with
  | [] => mret true
  | _ :: _ =>
      first ← list_first items;
      d ← read_dict first;
      role ← lift (message_getitem d (py "role"));
      mret (bool_decide (role ≠ py "system"))
  end.

(** Lines 77 to 81: a new list in the first branch, the caller's own list
    under a second name in the other. *)
Definition effective_messages_at (messages : loc) : M state loc :=
  c ← lacks_system_message_at messages;
  if c : bool
  then
    m ← alloc (ODict system_message);
    single ← alloc (OList [m]);
    list_add single messages
  else mret messages.

(** [get_agent_response] over the store: takes and returns the location
    of a list. *)
Definition get_agent_response_at (messages : loc) : M state loc :=
  current_messages ← effective_messages_at messages;
  completion ← litellm_completion_at (MODEL_NAME utils) current_messages;
  assistant_reply_content ← lift (extract_reply completion);
  m ← alloc (ODict (assistant_message assistant_reply_content));
  single ← alloc (OList [m]);
  updated_messages ← list_add current_messages single;
  mret updated_messages.

End Adapter.

Arguments World {S} svc outbound.
Arguments svc {S} w.
Arguments outbound {S} w.
Arguments litellm_completion {S} service model messages _.
Arguments get_agent_response {S} service utils messages _.
Arguments State {S} store outside.
Arguments store {S} s.
Arguments outside {S} s.
Arguments alloc {S} o _.
Arguments read_list {S} l _.
Arguments read_dict {S} l _.
Arguments list_add {S} a b _.
Arguments list_first {S} items _.
Arguments litellm_completion_at {S} service model messages _.
Arguments lacks_system_message_at {S} messages _.
Arguments effective_messages_at {S} messages _.
Arguments get_agent_response_at {S} service utils messages _.

(** The role of the first message, when there is one and it has the key. *)
Definition head_role (messages : list message) : option pystr :=
  first ← head messages; first !! py "role".

(** How often a message occurs in a sequence. *)
Definition count_message (m : message) (messages : list message) : nat :=
  length (filter (fun x => x = m) messages).

(** ** Fixtures: the scenarios of the specification *)

Definition user_eggs : message := make_message (py "user") (py "I have eggs").

Definition user_hi : message := make_message (py "user") (py "hi").

Definition custom_system : message := make_message (py "system") (py "custom").

(** A completion object with one choice, whose message has [content]. *)
Definition completion_of (content : pyval) : pyval :=
  PyDict {[ py "choices" :=
    PyList [PyDict {[ py "message" := PyDict {[ py "content" := content ]} ]}] ]}.

(** A service without state that gives every request the same outcome. *)
Definition fixed_service (r : result pyval) : unit → request → result pyval * unit :=
  fun _ _ => (r, tt).

(** The module as loaded with no file and an empty environment. *)
Definition default_utils : utils_module := (import_utils None ∅).1.

(** A world in which nothing was sent yet. *)
Definition quiet : world unit := World tt [].

(** The store of scenario C: the caller's list at location 1, its two
    messages at locations 2 and 3. *)
Definition scenario_C_state : state unit :=
  State {[ 1%positive := OList [2%positive; 3%positive];
           2%positive := ODict custom_system;
           3%positive := ODict user_hi ]} quiet.

(** * Properties *)

(** ** [str.strip()] *)

Definition whitespace (s : pystr) : Prop :=
  Forall (fun c => py_isspace c = true) s.

Lemma lstrip_split (s : pystr) :
  ∃ pre, s = pre ++ lstrip s ∧ whitespace pre.
Proof.
  induction s as [|c s IH]; simpl.
  - exists []. split; [done | constructor].
  - destruct (py_isspace c) eqn:Hc.
    + destruct IH as (pre & Hs & Hpre).
      exists (c :: pre). split.
      * simpl. by rewrite <- Hs.
      * by constructor.
    + exists []. split; [done | constructor].
Qed.

Lemma lstrip_head (s : pystr) (c : N) :
  head (lstrip s) = Some c → py_isspace c = false.
Proof.
  induction s as [|a s IH]; simpl; [done |].
  destruct (py_isspace a) eqn:Ha; [done |].
  simpl. intros [= <-]. exact Ha.
Qed.

Lemma rstrip_split (s : pystr) :
  ∃ post, s = rstrip s ++ post ∧ whitespace post.
Proof.
  destruct (lstrip_split (reverse s)) as (pre & Hs & Hpre).
  exists (reverse pre). split.
  - unfold rstrip. rewrite <- reverse_app, <- Hs.
    by rewrite reverse_involutive.
  - by apply Forall_reverse.
Qed.

Lemma rstrip_last (s : pystr) (c : N) :
  last (rstrip s) = Some c → py_isspace c = false.
Proof.
  unfold rstrip. rewrite last_reverse. apply lstrip_head.
Qed.

Lemma rstrip_head (s : pystr) (c : N) :
  head (rstrip s) = Some c → head s = Some c.
Proof.
  destruct (rstrip_split s) as (post & Hs & _).
  intros Hc. rewrite Hs, head_app, Hc. done.
Qed.

Lemma strip_split (s : pystr) :
  ∃ pre post, s = pre ++ strip s ++ post ∧ whitespace pre ∧ whitespace post.
Proof.
  destruct (lstrip_split s) as (pre & Hs & Hpre).
  destruct (rstrip_split (lstrip s)) as (post & Ht & Hpost).
  exists pre, post. unfold strip. by rewrite <- Ht.
Qed.

Lemma strip_head (s : pystr) (c : N) :
  head (strip s) = Some c → py_isspace c = false.
Proof.
  unfold strip. intros Hc. apply rstrip_head in Hc.
  by apply lstrip_head in Hc.
Qed.

Lemma strip_last (s : pystr) (c : N) :
  last (strip s) = Some c → py_isspace c = false.
Proof. apply rstrip_last. Qed.

Example strip_pasta :
  strip (py "  ## Pasta
...	 ") = py "## Pasta
...".
Proof. reflexivity. Qed.

(** ** Messages *)

Lemma make_message_role (role content : pystr) :
  make_message role content !! py "role" = Some role.
Proof.
  unfold make_message.
  rewrite lookup_insert_ne by (by vm_compute).
  apply lookup_insert_eq.
Qed.

Lemma make_message_content (role content : pystr) :
  make_message role content !! py "content" = Some content.
Proof. unfold make_message. apply lookup_insert_eq. Qed.

Lemma make_message_keys (role content : pystr) :
  dom (make_message role content) = {[py "role"; py "content"]}.
Proof.
  unfold make_message. rewrite !dom_insert_L, dom_empty_L. set_solver.
Qed.

(** ** The system prompt check *)

Lemma effective_messages_empty :
  effective_messages [] = Return [system_message].
Proof. reflexivity. Qed.

Lemma effective_messages_cons (first : message) (rest : list message) :
  effective_messages (first :: rest) =
  match first !! py "role" with
  | None => Raise (KeyError (KStr (py "role")))
  | Some role =>
      if decide (role = py "system")
      then Return (first :: rest)
      else Return (system_message :: first :: rest)
  end.
Proof.
  unfold effective_messages, lacks_system_message, message_getitem.
  destruct (first !! py "role") as [role|]; simpl; [|done].
  unfold mret, result_ret.
  destruct (decide (role = py "system")) as [->|Hne].
  - rewrite bool_decide_eq_false_2; [done | by intros Hne].
  - by rewrite bool_decide_eq_true_2.
Qed.

Lemma head_role_cons (first : message) (rest : list message) :
  head_role (first :: rest) = first !! py "role".
Proof. reflexivity. Qed.

Lemma effective_messages_prepends (messages : list message) :
  messages = [] ∨ (∃ role, head_role messages = Some role ∧ role ≠ py "system") →
  effective_messages messages = Return (system_message :: messages).
Proof.
  intros [-> | (role & Hrole & Hne)]; [done |].
  destruct messages as [|first rest]; [done |].
  rewrite head_role_cons in Hrole. rewrite effective_messages_cons, Hrole.
  by destruct (decide (role = py "system")).
Qed.

Lemma effective_messages_keeps (messages : list message) :
  head_role messages = Some (py "system") →
  effective_messages messages = Return messages.
Proof.
  destruct messages as [|first rest]; [done |].
  rewrite head_role_cons. intros Hrole.
  rewrite effective_messages_cons, Hrole.
  by destruct (decide (py "system" = py "system")).
Qed.

Lemma effective_messages_inv (messages E : list message) :
  effective_messages messages = Return E →
  (E = system_message :: messages ∧ head_role messages ≠ Some (py "system"))
  ∨ (E = messages ∧ head_role messages = Some (py "system")).
Proof.
  destruct messages as [|first rest].
  - intros [= <-]. by left.
  - rewrite effective_messages_cons, head_role_cons.
    destruct (first !! py "role") as [role|]; [|done].
    destruct (decide (role = py "system")) as [->|Hne]; intros [= <-].
    + by right.
    + left. split; [done | congruence].
Qed.

Lemma system_message_role :
  system_message !! py "role" = Some (py "system").
Proof. apply make_message_role. Qed.

Lemma effective_messages_head_role (messages E : list message) :
  effective_messages messages = Return E →
  head_role E = Some (py "system").
Proof.
  intros HE. apply effective_messages_inv in HE as [[-> _] | [-> Hrole]].
  - rewrite head_role_cons. apply system_message_role.
  - exact Hrole.
Qed.

Lemma effective_messages_total (messages : list message) :
  Forall (fun m => is_Some (m !! py "role")) messages →
  ∃ E, effective_messages messages = Return E.
Proof.
  destruct messages as [|first rest]; [by eexists |].
  intros Hall. apply Forall_cons in Hall as [[role Hrole] _].
  rewrite effective_messages_cons, Hrole.
  destruct (decide (role = py "system")); by eexists.
Qed.

(** ** The function over message values *)

Section AdapterFacts.

Context {S : Type}.
Variable service : S → request → result pyval * S.
Variable utils : utils_module.

Implicit Types (messages E : list message) (w : world S).

(** What the function makes of the outcome [r] of the call. *)
Definition finish (E : list message) (r : result pyval) : result (list message) :=
  completion ← r;
  reply ← extract_reply completion;
  mret (E ++ [assistant_message reply]).

Lemma get_agent_response_unsent messages e w :
  effective_messages messages = Raise e →
  get_agent_response service utils messages w = (Raise e, w).
Proof.
  intros HE. unfold get_agent_response, mbind, M_bind, lift. by rewrite HE.
Qed.

Lemma get_agent_response_sent messages E w :
  effective_messages messages = Return E →
  let req := Request (MODEL_NAME utils) E in
  get_agent_response service utils messages w =
  (finish E (service (svc w) req).1,
   World (service (svc w) req).2 (outbound w ++ [req])).
Proof.
  intros HE req.
  unfold get_agent_response, mbind, M_bind, lift, litellm_completion.
  rewrite HE. fold req.
  destruct (service (svc w) req) as [[completion|e] s']; simpl; [|done].
  by destruct (extract_reply completion).
Qed.

(** C1: for an effective sequence [E] and a reply text [R] of the service,
    the function returns [E] followed by one message with the two keys
    "role" and "content", of role "assistant" and of content [R.strip()]:
    [R] without its leading and its trailing run of whitespace. *)
Theorem reply_appended_stripped messages E w (completion : pyval) (s' : S) (R : pystr) :
  effective_messages messages = Return E →
  service (svc w) (Request (MODEL_NAME utils) E) = (Return completion, s') →
  completion_content completion = Return (PyStr R) →
  ∃ reply : message,
    (get_agent_response service utils messages w).1 = Return (E ++ [reply])
    ∧ dom reply = {[py "role"; py "content"]}
    ∧ reply !! py "role" = Some (py "assistant")
    ∧ reply !! py "content" = Some (strip R)
    ∧ (∃ pre post, R = pre ++ strip R ++ post ∧ whitespace pre ∧ whitespace post)
    ∧ (∀ c, head (strip R) = Some c → py_isspace c = false)
    ∧ (∀ c, last (strip R) = Some c → py_isspace c = false).
Proof.
  intros HE Hcall Hcontent.
  exists (assistant_message (strip R)).
  split.
  { rewrite (get_agent_response_sent _ _ _ HE). simpl. rewrite Hcall. simpl.
    unfold finish, extract_reply. simpl. by rewrite Hcontent. }
  split; [apply make_message_keys |].
  split; [apply make_message_role |].
  split; [apply make_message_content |].
  split; [apply strip_split |].
  split; [apply strip_head | apply strip_last].
Qed.

(** C2: a history that is empty, or whose first message has a role other
    than "system", is sent to the service with the constant system message
    put in front of it. *)
Theorem system_prompt_prepended messages w :
  messages = [] ∨ (∃ role, head_role messages = Some role ∧ role ≠ py "system") →
  effective_messages messages = Return ([system_message] ++ messages)
  ∧ outbound (get_agent_response service utils messages w).2 =
      outbound w ++ [Request (MODEL_NAME utils) ([system_message] ++ messages)].
Proof.
  intros Hhead. apply effective_messages_prepends in Hhead as HE.
  split; [exact HE |].
  by rewrite (get_agent_response_sent _ _ _ HE).
Qed.

(** C3: a history whose first message has the role "system" is sent to the
    service as it is: the caller's system message stays at the head, and the
    constant system message is not put in front of it. *)
Theorem system_message_kept messages w :
  head_role messages = Some (py "system") →
  effective_messages messages = Return messages
  ∧ outbound (get_agent_response service utils messages w).2 =
      outbound w ++ [Request (MODEL_NAME utils) messages]
  ∧ effective_messages messages ≠ Return ([system_message] ++ messages).
Proof.
  intros Hhead. apply effective_messages_keeps in Hhead as HE.
  split; [exact HE |].
  split; [by rewrite (get_agent_response_sent _ _ _ HE) |].
  rewrite HE. intros [= Heq].
  apply (f_equal length) in Heq. simpl in Heq. lia.
Qed.

(** Whatever the history and the service, a sequence the function returns
    has the shape of C4. *)
Lemma get_agent_response_returns_inv messages w out :
  (get_agent_response service utils messages w).1 = Return out →
  ∃ E reply,
    effective_messages messages = Return E
    ∧ out = E ++ [assistant_message reply]
    ∧ head_role out = Some (py "system").
Proof.
  destruct (effective_messages messages) as [E|e] eqn:HE.
  - rewrite (get_agent_response_sent _ _ _ HE). simpl.
    destruct (service _ _) as [[completion|e] s']; simpl; [|done].
    unfold finish. simpl.
    destruct (extract_reply completion) as [reply|e]; simpl; [|done].
    intros [= <-]. exists E, reply. split; [done |]. split; [done |].
    pose proof (effective_messages_head_role _ _ HE) as Hrole.
    destruct E as [|first rest]; [done |]. exact Hrole.
  - by rewrite (get_agent_response_unsent _ _ _ HE).
Qed.

(** C4: when the service answers the effective sequence [E] with a
    completion that holds a reply text, the function returns a sequence that
    is not empty, starts with a message of role "system", ends with the new
    message of role "assistant", and is one longer than [E]. *)
Theorem returned_sequence_shape messages E w (completion : pyval) (s' : S) (reply : pystr) :
  effective_messages messages = Return E →
  service (svc w) (Request (MODEL_NAME utils) E) = (Return completion, s') →
  extract_reply completion = Return reply →
  ∃ out,
    (get_agent_response service utils messages w).1 = Return out
    ∧ out ≠ []
    ∧ head_role out = Some (py "system")
    ∧ last out = Some (assistant_message reply)
    ∧ assistant_message reply !! py "role" = Some (py "assistant")
    ∧ length out = Datatypes.S (length E).
Proof.
  intros HE Hcall Hreply.
  assert ((get_agent_response service utils messages w).1
          = Return (E ++ [assistant_message reply])) as Hout.
  { rewrite (get_agent_response_sent _ _ _ HE). simpl. rewrite Hcall. simpl.
    unfold finish. simpl. by rewrite Hreply. }
  exists (E ++ [assistant_message reply]).
  split; [exact Hout |].
  split; [by destruct E |].
  split.
  { apply get_agent_response_returns_inv in Hout as (_ & _ & _ & _ & Hrole).
    exact Hrole. }
  split; [apply last_snoc |].
  split; [apply make_message_role |].
  rewrite length_app. simpl. lia.
Qed.

(** C5: once the effective sequence [E] is there, exactly one request is
    sent, and a failure ends the function with that exception and with no
    sequence: an exception of the call itself, [IndexError] for an empty
    choice list, [KeyError] for a choice without "message" or a message
    without "content", and any other exception of the extraction. *)
Theorem failures_propagate messages E w :
  effective_messages messages = Return E →
  let req := Request (MODEL_NAME utils) E in
  let run := get_agent_response service utils messages w in
  outbound run.2 = outbound w ++ [req]
  ∧ (∀ e, (service (svc w) req).1 = Raise e → run.1 = Raise e)
  ∧ (∀ completion, (service (svc w) req).1 = Return completion →
       (getitem_str completion (py "choices") = Return (PyList []) →
          run.1 = Raise IndexError)
       ∧ (∀ choice rest,
            getitem_str completion (py "choices")
              = Return (PyList (PyDict choice :: rest)) →
            choice !! py "message" = None →
            run.1 = Raise (KeyError (KStr (py "message"))))
       ∧ (∀ choice rest msg,
            getitem_str completion (py "choices")
              = Return (PyList (PyDict choice :: rest)) →
            choice !! py "message" = Some (PyDict msg) →
            msg !! py "content" = None →
            run.1 = Raise (KeyError (KStr (py "content"))))
       ∧ (∀ e, extract_reply completion = Raise e → run.1 = Raise e)).
Proof.
  intros HE req run. unfold run.
  rewrite (get_agent_response_sent _ _ _ HE). fold req. simpl.
  split; [done |].
  split.
  { intros e ->. done. }
  intros completion ->. unfold finish. simpl.
  assert (∀ e, extract_reply completion = Raise e →
               (reply ← extract_reply completion;
                mret (E ++ [assistant_message reply])) = Raise e) as Hraise.
  { intros e ->. done. }
  split; [|split; [|split]].
  - intros Hchoices. apply Hraise.
    unfold extract_reply, completion_content. by rewrite Hchoices.
  - intros choice rest Hchoices Hmessage. apply Hraise.
    unfold extract_reply, completion_content. rewrite Hchoices. simpl.
    by rewrite Hmessage.
  - intros choice rest msg Hchoices Hmessage Hcontent. apply Hraise.
    unfold extract_reply, completion_content. rewrite Hchoices. simpl.
    rewrite Hmessage. simpl. by rewrite Hcontent.
  - exact Hraise.
Qed.

(** When the first message has no "role" the function ends with the
    [KeyError] of line 78 and sends nothing. *)
Lemma get_agent_response_without_role (first : message) (rest : list message) w :
  first !! py "role" = None →
  get_agent_response service utils (first :: rest) w
  = (Raise (KeyError (KStr (py "role"))), w).
Proof.
  intros Hrole. apply get_agent_response_unsent.
  by rewrite effective_messages_cons, Hrole.
Qed.

(** C9: the system prompt check changes nothing in a sequence it produced,
    and nothing in a sequence the function returned. *)
Theorem effective_messages_idempotent messages E :
  effective_messages messages = Return E →
  effective_messages E = Return E
  ∧ (∀ w out,
       (get_agent_response service utils messages w).1 = Return out →
       effective_messages out = Return out
       ∧ ∀ w', outbound (get_agent_response service utils out w').2
               = outbound w' ++ [Request (MODEL_NAME utils) out]).
Proof.
  intros HE. split.
  - apply effective_messages_keeps. by eapply effective_messages_head_role.
  - intros w out Hout.
    apply get_agent_response_returns_inv in Hout as (_ & _ & _ & _ & Hrole).
    apply effective_messages_keeps in Hrole as Hkeep.
    split; [exact Hkeep |].
    intros w'. by rewrite (get_agent_response_sent _ _ _ Hkeep).
Qed.

End AdapterFacts.

(** ** The scenarios, as instances of the theorems *)

Lemma completion_content_of (content : pyval) :
  completion_content (completion_of content) = Return content.
Proof.
  unfold completion_content, completion_of. simpl.
  rewrite lookup_singleton_eq. simpl.
  rewrite lookup_singleton_eq. simpl.
  by rewrite lookup_singleton_eq.
Qed.

Lemma py_user_not_system : py "user" ≠ py "system".
Proof. by vm_compute. Qed.

(** Scenario A: the empty history and a reply with blanks around it. *)
Lemma reply_appended_stripped_scenario_A :
  effective_messages [] = Return [system_message]
  ∧ ∃ reply : message,
      (get_agent_response
         (fixed_service (Return (completion_of (PyStr (py "  ## Pasta
... ")))))
         default_utils [] quiet).1
      = Return ([system_message] ++ [reply])
      ∧ reply !! py "role" = Some (py "assistant")
      ∧ reply !! py "content" = Some (py "## Pasta
...").
Proof.
  split; [reflexivity |].
  destruct (reply_appended_stripped
              (fixed_service (Return (completion_of (PyStr (py "  ## Pasta
... ")))))
              default_utils [] [system_message] quiet
              (completion_of (PyStr (py "  ## Pasta
... "))) tt (py "  ## Pasta
... ") eq_refl eq_refl (completion_content_of _))
    as (reply & Hout & _ & Hrole & Hcontent & _).
  exists reply. split; [exact Hout |]. split; [exact Hrole | exact Hcontent].
Defined.

(** Scenario B: a history that starts with a user message. *)
Lemma system_prompt_prepended_scenario_B :
  effective_messages [user_eggs] = Return [system_message; user_eggs]
  ∧ outbound (get_agent_response
                (fixed_service (Return (completion_of (PyStr (py "## Omelette")))))
                default_utils [user_eggs] quiet).2
    = [Request (py "gpt-4o-mini") [system_message; user_eggs]].
Proof.
  apply (system_prompt_prepended
           (fixed_service (Return (completion_of (PyStr (py "## Omelette")))))
           default_utils [user_eggs] quiet).
  right. exists (py "user"). split; [apply make_message_role |].
  exact py_user_not_system.
Defined.

(** Scenario C: a history that brings its own system message. *)
Lemma system_message_kept_scenario_C :
  effective_messages [custom_system; user_hi] = Return [custom_system; user_hi]
  ∧ outbound (get_agent_response
                (fixed_service (Return (completion_of (PyStr (py "Hello")))))
                default_utils [custom_system; user_hi] quiet).2
    = [Request (py "gpt-4o-mini") [custom_system; user_hi]]
  ∧ effective_messages [custom_system; user_hi]
    ≠ Return [system_message; custom_system; user_hi].
Proof.
  apply (system_message_kept
           (fixed_service (Return (completion_of (PyStr (py "Hello")))))
           default_utils [custom_system; user_hi] quiet).
  apply make_message_role.
Defined.

Lemma returned_sequence_shape_scenario_B :
  ∃ out,
    (get_agent_response
       (fixed_service (Return (completion_of (PyStr (py "## Omelette")))))
       default_utils [user_eggs] quiet).1 = Return out
    ∧ out ≠ []
    ∧ head_role out = Some (py "system")
    ∧ last out = Some (assistant_message (py "## Omelette"))
    ∧ assistant_message (py "## Omelette") !! py "role" = Some (py "assistant")
    ∧ length out = 3%nat.
Proof.
  apply (returned_sequence_shape
           (fixed_service (Return (completion_of (PyStr (py "## Omelette")))))
           default_utils [user_eggs] [system_message; user_eggs] quiet
           (completion_of (PyStr (py "## Omelette"))) tt (py "## Omelette")).
  - apply effective_messages_prepends. right. exists (py "user").
    split; [apply make_message_role | exact py_user_not_system].
  - reflexivity.
  - unfold extract_reply. by rewrite completion_content_of.
Defined.

(** Scenario D, and the failures of the extraction. *)
Lemma failures_propagate_scenario_D :
  (get_agent_response
     (fixed_service (Raise (ServiceError (py "APIConnectionError"))))
     default_utils [user_hi] quiet)
  = (Raise (ServiceError (py "APIConnectionError")),
     World tt [Request (py "gpt-4o-mini") [system_message; user_hi]])
  ∧ (get_agent_response
       (fixed_service (Return (PyDict {[ py "choices" := PyList [] ]})))
       default_utils [user_hi] quiet).1
    = Raise IndexError.
Proof.
  assert (effective_messages [user_hi] = Return [system_message; user_hi]) as HE.
  { apply effective_messages_prepends. right. exists (py "user").
    split; [apply make_message_role | exact py_user_not_system]. }
  split.
  - destruct (failures_propagate
                (fixed_service (Raise (ServiceError (py "APIConnectionError"))))
                default_utils [user_hi] _ quiet HE) as (Hsent & Hraise & _).
    specialize (Hraise _ eq_refl).
    destruct (get_agent_response _ _ _ _) as [r [s sent]].
    simpl in Hsent, Hraise. destruct s. by rewrite Hsent, Hraise.
  - destruct (failures_propagate
                (fixed_service (Return (PyDict {[ py "choices" := PyList [] ]})))
                default_utils [user_hi] _ quiet HE) as (_ & _ & Hextract).
    destruct (Hextract _ eq_refl) as (Hempty & _).
    apply Hempty. simpl. by rewrite lookup_singleton_eq.
Defined.

Lemma effective_messages_idempotent_scenario_B :
  effective_messages [system_message; user_eggs]
  = Return [system_message; user_eggs]
  ∧ effective_messages
      [system_message; user_eggs; assistant_message (py "## Omelette")]
    = Return [system_message; user_eggs; assistant_message (py "## Omelette")].
Proof.
  assert (effective_messages [user_eggs] = Return [system_message; user_eggs]) as HE.
  { apply effective_messages_prepends. right. exists (py "user").
    split; [apply make_message_role | exact py_user_not_system]. }
  destruct (effective_messages_idempotent
              (fixed_service (Return (completion_of (PyStr (py "## Omelette")))))
              default_utils [user_eggs] _ HE) as (Hidem & Hfeed).
  split; [exact Hidem |].
  apply (Hfeed quiet).
  rewrite (get_agent_response_sent _ _ _ _ _ HE). simpl.
  unfold finish, extract_reply. simpl. by rewrite completion_content_of.
Defined.

(** ** How often the constant system message is sent *)

Lemma count_message_cons (m x : message) (l : list message) :
  count_message m (x :: l)
  = if decide (x = m) then Datatypes.S (count_message m l) else count_message m l.
Proof.
  unfold count_message. rewrite filter_cons.
  by destruct (decide (x = m)).
Qed.

(** C6, as the specification has it, fails: a history that brings its own
    system message is sent without the constant one, and a history that holds
    the constant message behind a user message is sent with two of them. *)
Lemma system_prompt_not_exactly_once :
  effective_messages [custom_system; user_hi] = Return [custom_system; user_hi]
  ∧ count_message system_message [custom_system; user_hi] = 0%nat
  ∧ effective_messages [user_hi; system_message]
    = Return [system_message; user_hi; system_message]
  ∧ count_message system_message [system_message; user_hi; system_message] = 2%nat.
Proof. by vm_compute. Qed.

(** C6, amended: the sequence that is sent always starts with a message of
    role "system".  When the history does not start with one, that message
    is the constant one, and the sequence holds it once more than the history
    does: exactly once if the history holds no copy of it.  When the history
    starts with a system message, the history itself is sent. *)
Theorem system_prompt_anchor (messages E : list message) :
  effective_messages messages = Return E →
  head_role E = Some (py "system")
  ∧ (head_role messages ≠ Some (py "system") →
       head E = Some system_message
       ∧ count_message system_message E
         = Datatypes.S (count_message system_message messages)
       ∧ (count_message system_message messages = 0%nat →
          count_message system_message E = 1%nat))
  ∧ (head_role messages = Some (py "system") → E = messages).
Proof.
  intros HE. split; [by eapply effective_messages_head_role |].
  apply effective_messages_inv in HE as [[-> Hno] | [-> Hyes]].
  - split; [|done]. intros _.
    rewrite count_message_cons.
    destruct (decide (system_message = system_message)); [|done].
    split; [done |]. split; [done |]. by intros ->.
  - split; [done | done].
Qed.

Lemma system_prompt_anchor_scenario_B :
  head_role [system_message; user_eggs] = Some (py "system")
  ∧ count_message system_message [system_message; user_eggs] = 1%nat.
Proof.
  assert (effective_messages [user_eggs] = Return [system_message; user_eggs]) as HE.
  { apply effective_messages_prepends. right. exists (py "user").
    split; [apply make_message_role | exact py_user_not_system]. }
  destruct (system_prompt_anchor [user_eggs] _ HE) as (Hrole & Hadd & _).
  split; [exact Hrole |].
  apply Hadd.
  - rewrite head_role_cons. unfold user_eggs. rewrite make_message_role.
    intros Heq. apply py_user_not_system. congruence.
  - by vm_compute.
Defined.

(** ** Configuration *)

Lemma load_dotenv_lookup (dotenv : option environ) (os_environ : environ) (key : pystr) :
  load_dotenv dotenv os_environ !! key
  = match os_environ !! key with
    | Some v => Some v
    | None => file ← dotenv; file !! key
    end.
Proof.
  destruct dotenv as [file|]; simpl.
  - rewrite lookup_union. by destruct (os_environ !! key), (file !! key).
  - by destruct (os_environ !! key).
Qed.

(** C7, as the specification has it, fails: with the variable unset when the
    process starts and a file that defines it, the file's value is used. *)
Lemma model_name_from_dotenv_file :
  (∅ : environ) !! py "MODEL_NAME" = None
  ∧ MODEL_NAME (import_utils (Some {[ py "MODEL_NAME" := py "gpt-4" ]}) ∅).1
    = py "gpt-4"
  ∧ py "gpt-4" ≠ py "gpt-4o-mini".
Proof. by vm_compute. Qed.

(** C7, amended: the resolved model identifier is the value of MODEL_NAME in
    the process environment when it is set there; otherwise the value the
    file gives it; and the fallback "gpt-4o-mini" when neither has it.  Every
    request the function sends names that identifier, whatever happens to
    the environment after the module was loaded. *)
Theorem model_name_resolution (dotenv : option environ) (os_environ : environ) :
  let utils := (import_utils dotenv os_environ).1 in
  MODEL_NAME utils
  = match os_environ !! py "MODEL_NAME" with
    | Some V => V
    | None =>
        match file ← dotenv; file !! py "MODEL_NAME" with
        | Some V => V
        | None => py "gpt-4o-mini"
        end
    end
  ∧ ∀ (S : Type) (service : S → request → result pyval * S)
      (messages : list message) (w : world S),
      let sent := outbound (get_agent_response service utils messages w).2 in
      sent = outbound w
      ∨ ∃ E, sent = outbound w ++ [Request (MODEL_NAME utils) E].
Proof.
  intros utils. split.
  - unfold utils, import_utils, environ_get. simpl.
    rewrite load_dotenv_lookup.
    destruct (os_environ !! py "MODEL_NAME"); [done |].
    by destruct (file ← dotenv; file !! py "MODEL_NAME").
  - intros S service messages w sent. unfold sent.
    destruct (effective_messages messages) as [E|e] eqn:HE.
    + right. exists E. by rewrite (get_agent_response_sent _ _ _ _ _ HE).
    + left. by rewrite (get_agent_response_unsent _ _ _ _ _ HE).
Qed.

Example model_name_unset :
  MODEL_NAME (import_utils None ∅).1 = py "gpt-4o-mini".
Proof. reflexivity. Qed.

Example model_name_set :
  MODEL_NAME (import_utils (Some {[ py "MODEL_NAME" := py "gpt-4" ]})
                {[ py "MODEL_NAME" := py "claude" ]}).1 = py "claude".
Proof. by vm_compute. Qed.

(** ** The result depends on the history and the reply alone *)

(** C10: two calls on the same history, to whatever services in whatever
    state and under whatever model identifier, end alike as soon as the two
    services give the same outcome for the sequence that is sent. *)
Theorem reply_determines_result {S1 S2 : Type}
    (service1 : S1 → request → result pyval * S1)
    (service2 : S2 → request → result pyval * S2)
    (utils1 utils2 : utils_module)
    (messages : list message) (w1 : world S1) (w2 : world S2) :
  (∀ E, effective_messages messages = Return E →
        (service1 (svc w1) (Request (MODEL_NAME utils1) E)).1
        = (service2 (svc w2) (Request (MODEL_NAME utils2) E)).1) →
  (get_agent_response service1 utils1 messages w1).1
  = (get_agent_response service2 utils2 messages w2).1.
Proof.
  intros Hsame.
  destruct (effective_messages messages) as [E|e] eqn:HE.
  - rewrite !(get_agent_response_sent _ _ _ _ _ HE). simpl.
    by rewrite (Hsame E).
  - by rewrite !(get_agent_response_unsent _ _ _ _ _ HE).
Qed.

(** A service with a state: it counts the requests it has answered. *)
Definition counting_service (r : result pyval) : nat → request → result pyval * nat :=
  fun n _ => (r, Datatypes.S n).

Lemma reply_determines_result_scenario_B :
  (get_agent_response
     (fixed_service (Return (completion_of (PyStr (py "## Omelette")))))
     default_utils [user_eggs] quiet).1
  = (get_agent_response
       (counting_service (Return (completion_of (PyStr (py "## Omelette")))))
       (UtilsModule (py "gpt-4")) [user_eggs] (World 7%nat [])).1.
Proof.
  apply (reply_determines_result
           (fixed_service (Return (completion_of (PyStr (py "## Omelette")))))
           (counting_service (Return (completion_of (PyStr (py "## Omelette")))))
           default_utils (UtilsModule (py "gpt-4")) [user_eggs] quiet (World 7%nat [])).
  intros E _. reflexivity.
Defined.

(** ** The function over the store *)

Section StoreFacts.

Context {S : Type}.
Variable service : S → request → result pyval * S.
Variable utils : utils_module.

Implicit Types (st : state S) (h : gmap loc obj) (l : loc).

(** A computation only adds objects: every object of the store it starts
    from is still there, unchanged, when it ends, whether it returns or
    raises. *)
Definition grows {A} (m : M (state S) A) : Prop :=
  ∀ st, store st ⊆ store (m st).2.

(** A location the computation returns is one the store did not use. *)
Definition returns_new (m : M (state S) loc) : Prop :=
  ∀ st l, (m st).1 = Return l → store st !! l = None.

Lemma fresh_unused h : h !! fresh (dom h) = None.
Proof. apply not_elem_of_dom, is_fresh. Qed.

Lemma grows_ret {A} (a : A) : grows (mret a).
Proof. by intros st. Qed.

Lemma grows_raise {A} (e : exn) : grows (raise (A := A) e).
Proof. by intros st. Qed.

Lemma grows_lift {A} (r : result A) : grows (lift r).
Proof. by intros st. Qed.

Lemma grows_bind {A B} (m : M (state S) A) (k : A → M (state S) B) :
  grows m → (∀ a, grows (k a)) → grows (m ≫= k).
Proof.
  intros Hm Hk st. unfold mbind, M_bind.
  specialize (Hm st). destruct (m st) as [[a|e] st1]; simpl in *; [|done].
  etrans; [exact Hm | apply Hk].
Qed.

Lemma grows_alloc (o : obj) : grows (alloc o).
Proof. intros st. simpl. apply insert_subseteq, fresh_unused. Qed.

Lemma grows_read_list l : grows (read_list l).
Proof. intros st. unfold read_list. by destruct (store st !! l) as [[]|]. Qed.

Lemma grows_read_dict l : grows (read_dict l).
Proof. intros st. unfold read_dict. by destruct (store st !! l) as [[]|]. Qed.

Lemma grows_list_first (items : list loc) : grows (list_first (S := S) items).
Proof. intros st. unfold list_first. by destruct (items !! 0%nat). Qed.

Lemma grows_litellm_completion_at (model : pystr) l :
  grows (litellm_completion_at service model l).
Proof.
  intros st. unfold litellm_completion_at.
  destruct (snapshot (store st) l); [|done].
  by destruct (litellm_completion _ _ _ _).
Qed.

Create HintDb store_grows.
#[local] Hint Resolve grows_ret grows_raise grows_lift grows_alloc
  grows_read_list grows_read_dict grows_list_first
  grows_litellm_completion_at : store_grows.

Ltac grows_steps :=
  repeat first
    [ progress eauto with store_grows
    | apply grows_bind; [| intros ? ]
    | match goal with |- grows (if ?c then _ else _) => destruct c end
    | match goal with |- grows (match ?x with _ => _ end) => destruct x end ].

Lemma grows_list_add (a b : loc) : grows (list_add (S := S) a b).
Proof. unfold list_add. grows_steps. Qed.

Lemma grows_lacks_system_message_at l : grows (lacks_system_message_at (S := S) l).
Proof. unfold lacks_system_message_at. grows_steps. Qed.

#[local] Hint Resolve grows_list_add grows_lacks_system_message_at : store_grows.

Lemma grows_effective_messages_at l : grows (effective_messages_at (S := S) l).
Proof. unfold effective_messages_at. grows_steps. Qed.

#[local] Hint Resolve grows_effective_messages_at : store_grows.

Lemma grows_get_agent_response_at l :
  grows (get_agent_response_at service utils l).
Proof. unfold get_agent_response_at. grows_steps. Qed.

(** *** New objects *)

Lemma returns_new_alloc (o : obj) : returns_new (alloc (S := S) o).
Proof. intros st l [= <-]. apply fresh_unused. Qed.

Lemma returns_new_bind {A} (m : M (state S) A) (k : A → M (state S) loc) :
  grows m → (∀ a, returns_new (k a)) → returns_new (m ≫= k).
Proof.
  intros Hm Hk st l. unfold mbind, M_bind.
  specialize (Hm st). destruct (m st) as [[a|e] st1]; simpl in *; [|done].
  intros Hl. apply Hk in Hl. by eapply lookup_weaken_None.
Qed.

Lemma returns_new_bind_ret (m : M (state S) loc) :
  returns_new m → returns_new (m ≫= mret).
Proof.
  intros Hm st l. unfold mbind, M_bind. specialize (Hm st).
  destruct (m st) as [[a|e] st1]; simpl in *; [|done].
  intros [= <-]. by apply Hm.
Qed.

Lemma returns_new_list_add (a b : loc) : returns_new (list_add (S := S) a b).
Proof.
  unfold list_add.
  apply returns_new_bind; [eauto with store_grows |]. intros xs.
  apply returns_new_bind; [eauto with store_grows |]. intros ys.
  apply returns_new_alloc.
Qed.

Lemma returns_new_get_agent_response_at l :
  returns_new (get_agent_response_at service utils l).
Proof.
  unfold get_agent_response_at.
  apply returns_new_bind; [eauto with store_grows |]. intros cur.
  apply returns_new_bind; [eauto with store_grows |]. intros completion.
  apply returns_new_bind; [eauto with store_grows |]. intros reply.
  apply returns_new_bind; [eauto with store_grows |]. intros m.
  apply returns_new_bind; [eauto with store_grows |]. intros single.
  apply returns_new_bind_ret, returns_new_list_add.
Qed.

(** *** What a reader sees *)

Lemma deref_mono h h' (i : loc) (d : message) :
  h ⊆ h' → deref h i = Some d → deref h' i = Some d.
Proof.
  intros Hsub. unfold deref.
  destruct (h !! i) as [[items|d']|] eqn:Hi; try done.
  intros [= <-]. by rewrite (lookup_weaken _ _ _ _ Hi Hsub).
Qed.

Lemma mapM_deref_mono h h' (items : list loc) (ms : list message) :
  h ⊆ h' → mapM (deref h) items = Some ms → mapM (deref h') items = Some ms.
Proof.
  intros Hsub. rewrite !mapM_Some. intros Hall.
  eapply Forall2_impl; [exact Hall |].
  intros i d. by apply deref_mono.
Qed.

Lemma snapshot_mono h h' l (ms : list message) :
  h ⊆ h' → snapshot h l = Some ms → snapshot h' l = Some ms.
Proof.
  intros Hsub. unfold snapshot.
  destruct (h !! l) as [[items|d]|] eqn:Hl; try done.
  rewrite (lookup_weaken _ _ _ _ Hl Hsub). by apply mapM_deref_mono.
Qed.

Lemma snapshot_items h l (ms : list message) :
  snapshot h l = Some ms →
  ∃ items, h !! l = Some (OList items) ∧ mapM (deref h) items = Some ms.
Proof.
  unfold snapshot. destruct (h !! l) as [[items|d]|]; try done.
  intros Hms. by exists items.
Qed.

(** A computation that returns the location of a list a reader sees as
    [ms], adds objects only and leaves the world outside as it is. *)
Definition yields (m : M (state S) loc) st (ms : list message) : Prop :=
  ∃ l st',
    m st = (Return l, st')
    ∧ store st ⊆ store st'
    ∧ outside st' = outside st
    ∧ snapshot (store st') l = Some ms.

Lemma list_add_yields (a b : loc) st (ms1 ms2 : list message) :
  snapshot (store st) a = Some ms1 →
  snapshot (store st) b = Some ms2 →
  yields (list_add a b) st (ms1 ++ ms2).
Proof.
  intros (xs & Ha & Hxs)%snapshot_items (ys & Hb & Hys)%snapshot_items.
  pose proof (fresh_unused (store st)) as Hnew.
  pose proof (insert_subseteq (store st) _ (OList (xs ++ ys)) Hnew) as Hsub.
  exists (fresh (dom (store st))),
         (State (<[fresh (dom (store st)) := OList (xs ++ ys)]> (store st))
                (outside st)).
  split.
  { unfold list_add, mbind, M_bind, read_list. by rewrite Ha, Hb. }
  split; [exact Hsub |]. split; [done |].
  unfold snapshot. simpl. rewrite lookup_insert_eq.
  apply mapM_Some, Forall2_app; apply mapM_Some;
    eapply mapM_deref_mono; eauto.
Qed.

Lemma singleton_yields (d : message) st :
  yields (m ← alloc (ODict d); alloc (OList [m])) st [d].
Proof.
  pose proof (fresh_unused (store st)) as Hnew.
  set (l1 := fresh (dom (store st))) in *.
  set (h1 := <[l1 := ODict d]> (store st)).
  pose proof (fresh_unused h1) as Hnew1.
  set (l2 := fresh (dom h1)) in *.
  exists l2, (State (<[l2 := OList [l1]]> h1) (outside st)).
  split; [done |].
  split.
  { simpl. etrans; [apply (insert_subseteq _ l1 (ODict d) Hnew) |].
    by apply insert_subseteq. }
  split; [done |].
  unfold snapshot. simpl. rewrite lookup_insert_eq. simpl.
  unfold deref. rewrite lookup_insert_ne.
  - unfold h1. by rewrite lookup_insert_eq.
  - intros Heq. rewrite Heq in Hnew1. unfold h1 in Hnew1.
    by rewrite lookup_insert_eq in Hnew1.
Qed.

(** [[d] + l]: the display of the dict, the list display around it, and the
    sum with the list at [l]. *)
Lemma prepend_yields (d : message) l st (ms : list message) :
  snapshot (store st) l = Some ms →
  yields (m ← alloc (ODict d); single ← alloc (OList [m]); list_add single l)
         st (d :: ms).
Proof.
  intros Hl.
  destruct (singleton_yields d st) as (l2 & st2 & Hrun & Hsub & Hout & Hsingle).
  destruct (list_add_yields l2 l st2 [d] ms Hsingle
              (snapshot_mono _ _ _ _ Hsub Hl))
    as (l3 & st3 & Hrun3 & Hsub3 & Hout3 & Hsum).
  exists l3, st3. split; [|split; [|split]].
  - unfold mbind, M_bind in *. simpl in *.
    injection Hrun as <- <-. exact Hrun3.
  - by etrans.
  - congruence.
  - exact Hsum.
Qed.

(** [l + [d]]. *)
Lemma append_yields (d : message) l st (ms : list message) :
  snapshot (store st) l = Some ms →
  yields (m ← alloc (ODict d); single ← alloc (OList [m]); list_add l single)
         st (ms ++ [d]).
Proof.
  intros Hl.
  destruct (singleton_yields d st) as (l2 & st2 & Hrun & Hsub & Hout & Hsingle).
  destruct (list_add_yields l l2 st2 ms [d]
              (snapshot_mono _ _ _ _ Hsub Hl) Hsingle)
    as (l3 & st3 & Hrun3 & Hsub3 & Hout3 & Hsum).
  exists l3, st3. split; [|split; [|split]].
  - unfold mbind, M_bind in *. simpl in *.
    injection Hrun as <- <-. exact Hrun3.
  - by etrans.
  - congruence.
  - exact Hsum.
Qed.

(** *** The two models agree *)

Lemma lacks_system_message_at_refines l st (ms : list message) :
  snapshot (store st) l = Some ms →
  lacks_system_message_at l st = (lacks_system_message ms, st).
Proof.
  intros (items & Hl & Hitems)%snapshot_items.
  unfold lacks_system_message_at, mbind, M_bind, read_list. rewrite Hl.
  apply mapM_Some in Hitems.
  destruct Hitems as [|i d rest ms' Hi _]; [done |].
  unfold deref in Hi.
  destruct (store st !! i) as [[?|d']|] eqn:Hd; try done.
  injection Hi as ->.
  simpl. unfold read_dict. rewrite Hd. unfold lift.
  unfold lacks_system_message. by destruct (message_getitem d (py "role")).
Qed.

(** The sequence that is sent, as the list at the location the check
    returns: a list of its own when the system message is prepended, the
    caller's list itself when it is not. *)
Lemma effective_messages_at_refines l st (ms : list message) :
  snapshot (store st) l = Some ms →
  match effective_messages ms with
  | Raise e => effective_messages_at l st = (Raise e, st)
  | Return E =>
      yields (effective_messages_at l) st E
      ∧ (head_role ms = Some (py "system") →
         effective_messages_at l st = (Return l, st))
  end.
Proof.
  intros Hl.
  pose proof (lacks_system_message_at_refines _ _ _ Hl) as Hc.
  assert (effective_messages_at l st
          = match lacks_system_message ms with
            | Return true =>
                (m ← alloc (ODict system_message);
                 single ← alloc (OList [m]);
                 list_add single l) st
            | Return false => (Return l, st)
            | Raise e => (Raise e, st)
            end) as Hrun.
  { unfold effective_messages_at. unfold mbind at 1, M_bind at 1.
    rewrite Hc. by destruct (lacks_system_message ms) as [[|]|e]. }
  unfold effective_messages, mbind at 1, result_bind.
  destruct (lacks_system_message ms) as [[|]|e] eqn:Hlacks; simpl; [| |done].
  - split.
    + unfold yields. rewrite Hrun.
      apply (prepend_yields system_message l st ms Hl).
    + intros Hrole. apply effective_messages_keeps in Hrole.
      unfold effective_messages in Hrole. rewrite Hlacks in Hrole.
      simpl in Hrole. injection Hrole as Heq.
      apply (f_equal length) in Heq. simpl in Heq. lia.
  - split; [|done].
    exists l, st. by repeat split.
Qed.

Lemma litellm_completion_at_refines (model : pystr) l st (E : list message) :
  snapshot (store st) l = Some E →
  litellm_completion_at service model l st
  = ((litellm_completion service model E (outside st)).1,
     State (store st) (litellm_completion service model E (outside st)).2).
Proof.
  intros Hl. unfold litellm_completion_at. rewrite Hl.
  by destruct (litellm_completion service model E (outside st)).
Qed.

Lemma get_agent_response_at_unsent l st (e : exn) st1 :
  effective_messages_at l st = (Raise e, st1) →
  get_agent_response_at service utils l st = (Raise e, st1).
Proof.
  intros Hrun. unfold get_agent_response_at, mbind, M_bind. by rewrite Hrun.
Qed.

Lemma get_agent_response_at_sent l st (cur : loc) st1 (E : list message) :
  effective_messages_at l st = (Return cur, st1) →
  snapshot (store st1) cur = Some E →
  let call := litellm_completion service (MODEL_NAME utils) E (outside st1) in
  let st2 := State (store st1) call.2 in
  get_agent_response_at service utils l st
  = match call.1 with
    | Raise e => (Raise e, st2)
    | Return completion =>
        match extract_reply completion with
        | Raise e => (Raise e, st2)
        | Return reply =>
            (m ← alloc (ODict (assistant_message reply));
             single ← alloc (OList [m]);
             list_add cur single) st2
        end
    end.
Proof.
  intros Hrun Hcur call st2.
  unfold get_agent_response_at.
  unfold mbind at 1, M_bind at 1. rewrite Hrun.
  unfold mbind at 1, M_bind at 1.
  rewrite (litellm_completion_at_refines _ _ _ _ Hcur).
  fold call. fold st2.
  destruct (call.1) as [completion|e]; [|done].
  unfold mbind at 1, M_bind at 1, lift.
  destruct (extract_reply completion) as [reply|e]; [|done].
  unfold mbind, M_bind. simpl.
  unfold list_add, mbind, M_bind.
  destruct (read_list cur _) as [[xs|e] st3]; [|done].
  destruct (read_list _ st3) as [[ys|e] st4]; [|done].
  done.
Qed.

(** The function over the store does what the function over message values
    does: on a list a reader sees as [ms] it ends with the same exception,
    or returns a list that a reader sees as the sequence the other returns;
    and both leave the same world outside. *)
Lemma get_agent_response_at_refines l st (ms : list message) :
  snapshot (store st) l = Some ms →
  let run := get_agent_response_at service utils l st in
  let run_v := get_agent_response service utils ms (outside st) in
  outside run.2 = run_v.2
  ∧ match run.1, run_v.1 with
    | Return l', Return out => snapshot (store run.2) l' = Some out
    | Raise e, Raise e' => e = e'
    | _, _ => False
    end.
Proof.
  intros Hl run run_v. unfold run, run_v. clear run run_v.
  pose proof (effective_messages_at_refines _ _ _ Hl) as Heff.
  destruct (effective_messages ms) as [E|e] eqn:HE.
  - destruct Heff as [(cur & st1 & Hrun1 & _ & Hout1 & Hcur) _].
    rewrite (get_agent_response_sent _ _ _ _ _ HE).
    rewrite (get_agent_response_at_sent _ _ _ _ _ Hrun1 Hcur).
    unfold litellm_completion. rewrite Hout1.
    destruct (service (svc (outside st)) (Request (MODEL_NAME utils) E))
      as [[completion|e] s'] eqn:Hcall; simpl; [|done].
    unfold finish. simpl.
    destruct (extract_reply completion) as [reply|e]; simpl; [|done].
    set (st2 := State (store st1)
                  (World s' (outbound (outside st)
                             ++ [Request (MODEL_NAME utils) E]))).
    destruct (append_yields (assistant_message reply) cur st2 E Hcur)
      as (l3 & st3 & Hrun3 & _ & Hout3 & Hsum).
    unfold mbind, M_bind in Hrun3 |- *. simpl in Hrun3 |- *.
    rewrite Hrun3. simpl. by split.
  - rewrite (get_agent_response_unsent _ _ _ _ _ HE).
    by rewrite (get_agent_response_at_unsent _ _ _ _ Heff).
Qed.

(** X12: two calls on lists that read alike, in whatever two stores and at
    whatever locations, end with the same exception or return lists that
    read alike: the outcome depends on what the list holds, not on which
    object it is. *)
Lemma get_agent_response_at_reads_alike l1 l2 st1 st2 (ms : list message) :
  snapshot (store st1) l1 = Some ms →
  snapshot (store st2) l2 = Some ms →
  outside st1 = outside st2 →
  let run1 := get_agent_response_at service utils l1 st1 in
  let run2 := get_agent_response_at service utils l2 st2 in
  match run1.1, run2.1 with
  | Return l1', Return l2' =>
      snapshot (store run1.2) l1' = snapshot (store run2.2) l2'
  | Raise e1, Raise e2 => e1 = e2
  | _, _ => False
  end.
Proof.
  intros H1 H2 Hout run1 run2.
  destruct (get_agent_response_at_refines l1 st1 ms H1) as [_ Ha].
  destruct (get_agent_response_at_refines l2 st2 ms H2) as [_ Hb].
  fold run1 in Ha. fold run2 in Hb. rewrite Hout in Ha.
  destruct (get_agent_response service utils ms (outside st2)).1 as [out|e];
    destruct run1.1, run2.1; try done; congruence.
Qed.

(** C8: the function changes no object that was in the store before the
    call, whether it returns or raises: the caller's list holds the same
    messages in the same order afterwards, and the list that is returned is
    an object the store did not hold before, so not the caller's list. *)
Theorem input_sequence_untouched l st (ms : list message) :
  snapshot (store st) l = Some ms →
  let run := get_agent_response_at service utils l st in
  store st ⊆ store run.2
  ∧ snapshot (store run.2) l = Some ms
  ∧ ∀ l', run.1 = Return l' →
          store st !! l' = None
          ∧ l' ≠ l
          ∧ ∃ items, store run.2 !! l' = Some (OList items).
Proof.
  intros Hl run.
  pose proof (grows_get_agent_response_at l st) as Hsub. fold run in Hsub.
  split; [exact Hsub |].
  split; [by eapply snapshot_mono |].
  intros l' Hret.
  pose proof (returns_new_get_agent_response_at l st l' Hret) as Hnew.
  split; [exact Hnew |].
  split.
  { intros ->. apply snapshot_items in Hl as (items & Hitems & _). congruence. }
  pose proof (get_agent_response_at_refines l st ms Hl) as [_ Hagree].
  fold run in Hagree. rewrite Hret in Hagree.
  destruct ((get_agent_response service utils ms (outside st)).1); [|done].
  apply snapshot_items in Hagree as (items & Hitems & _). by exists items.
Qed.

End StoreFacts.

(** Scenario C over the store: the caller's list at location 1 is sent
    itself, the answer is a new list at location 6, and location 1 reads as
    before. *)
Lemma input_sequence_untouched_scenario_C :
  let run :=
    get_agent_response_at
      (fixed_service (Return (completion_of (PyStr (py " Hello ")))))
      default_utils 1%positive scenario_C_state in
  run.1 = Return 6%positive
  ∧ store scenario_C_state ⊆ store run.2
  ∧ snapshot (store run.2) 1%positive = Some [custom_system; user_hi]
  ∧ store scenario_C_state !! 6%positive = None
  ∧ snapshot (store run.2) 6%positive
    = Some [custom_system; user_hi; assistant_message (py "Hello")].
Proof.
  intros run.
  assert (run.1 = Return 6%positive) as Hret by (by vm_compute).
  destruct (input_sequence_untouched
              (fixed_service (Return (completion_of (PyStr (py " Hello ")))))
              default_utils 1%positive scenario_C_state
              [custom_system; user_hi] eq_refl)
    as (Hsub & Hsame & Hnew).
  destruct (Hnew 6%positive Hret) as (Hunused & _ & _).
  split; [exact Hret |].
  split; [exact Hsub |].
  split; [exact Hsame |].
  split; [exact Hunused |].
  by vm_compute.
Defined.

(** * Further properties of [get_agent_response] *)


(** The exceptions lines 88 to 91 can end in. *)
Definition extraction_errors : list exn :=
  [ TypeError; IndexError; AttributeError;
    KeyError (KStr (py "choices")); KeyError (KInt 0);
    KeyError (KStr (py "message")); KeyError (KStr (py "content")) ].

Lemma getitem_str_raises (v : pyval) (k : pystr) (e : exn) :
  getitem_str v k = Raise e → e = TypeError ∨ e = KeyError (KStr k).
Proof.
  destruct v as [| s | l | d]; simpl; try (intros [= <-]; by left).
  destruct (d !! k); [done |]. intros [= <-]. by right.
Qed.

Lemma getitem_int_raises (v : pyval) (i : nat) (e : exn) :
  getitem_int v i = Raise e →
  e = TypeError ∨ e = IndexError ∨ e = KeyError (KInt i).
Proof.
  destruct v as [| s | l | d]; simpl.
  - intros [= <-]. by left.
  - destruct (s !! i); [done |]. intros [= <-]. right. by left.
  - destruct (l !! i); [done |]. intros [= <-]. right. by left.
  - intros [= <-]. right. by right.
Qed.


Lemma extract_reply_raises (completion : pyval) (e : exn) :
  extract_reply completion = Raise e → e ∈ extraction_errors.
Proof.
  unfold extract_reply, completion_content, extraction_errors.
  destruct (getitem_str completion (py "choices")) as [choices|e1] eqn:H1;
    simpl.
  2: { intros [= <-]. apply getitem_str_raises in H1 as [-> | ->];
       set_solver. }
  destruct (getitem_int choices 0) as [choice|e2] eqn:H2; simpl.
  2: { intros [= <-]. apply getitem_int_raises in H2 as [-> | [-> | ->]];
       set_solver. }
  destruct (getitem_str choice (py "message")) as [msg|e3] eqn:H3; simpl.
  2: { intros [= <-]. apply getitem_str_raises in H3 as [-> | ->];
       set_solver. }
  destruct (getitem_str msg (py "content")) as [content|e4] eqn:H4; simpl.
  2: { intros [= <-]. apply getitem_str_raises in H4 as [-> | ->];
       set_solver. }
  destruct content; simpl; try done; intros [= <-]; set_solver.
Qed.

Lemma lstrip_fixed (s : pystr) :
  (∀ c, head s = Some c → py_isspace c = false) → lstrip s = s.
Proof.
  destruct s as [|c s]; [done |]. simpl. intros Hc.
  by rewrite (Hc c eq_refl).
Qed.

Lemma lstrip_whitespace (s : pystr) : whitespace s → lstrip s = [].
Proof.
  induction 1 as [|c s Hc _ IH]; [done |]. simpl. by rewrite Hc.
Qed.

Lemma strip_whitespace (s : pystr) : whitespace s → strip s = [].
Proof. intros Hs. unfold strip. by rewrite (lstrip_whitespace _ Hs). Qed.

Section FurtherFacts.

Context {S : Type}.
Variable service : S → request → result pyval * S.
Variable utils : utils_module.

Implicit Types (messages E : list message) (w : world S).

(** X1: the function ends with [KeyError("role")] and the world as it was,
    no request sent, exactly when the history is not empty and its first
    message has no "role" key. *)
Theorem no_request_iff_first_role_missing messages w :
  get_agent_response service utils messages w
  = (Raise (KeyError (KStr (py "role"))), w)
  ↔ ∃ first rest, messages = first :: rest ∧ first !! py "role" = None.
Proof.
  split.
  - destruct (effective_messages messages) as [E|e] eqn:HE.
    + rewrite (get_agent_response_sent _ _ _ _ _ HE). simpl.
      intros [= _ Hw]. destruct w as [s sent]. simpl in Hw.
      injection Hw as _ Hsent.
      apply (f_equal length) in Hsent. rewrite length_app in Hsent.
      simpl in Hsent. lia.
    + intros _. destruct messages as [|first rest]; [done |].
      exists first, rest. split; [done |].
      rewrite effective_messages_cons in HE.
      destruct (first !! py "role") as [role|]; [|done].
      by destruct (decide (role = py "system")).
  - intros (first & rest & -> & Hrole).
    apply get_agent_response_unsent.
    by rewrite effective_messages_cons, Hrole.
Qed.

(** X2: a sequence the function returns holds the whole history, in order
    and unchanged, between at most the constant system message in front and
    exactly one new message of role "assistant" at the end. *)
Theorem history_preserved messages w out :
  (get_agent_response service utils messages w).1 = Return out →
  ∃ reply : pystr,
    (head_role messages = Some (py "system")
     ∧ out = messages ++ [assistant_message reply])
    ∨ (head_role messages ≠ Some (py "system")
       ∧ out = [system_message] ++ messages ++ [assistant_message reply]).
Proof.
  intros Hout.
  apply get_agent_response_returns_inv in Hout as (E & reply & HE & -> & _).
  exists reply.
  apply effective_messages_inv in HE as [[-> Hno] | [-> Hyes]].
  - right. by split.
  - left. by split.
Qed.


(** X4: an exception the function ends in is the [KeyError("role")] of the
    system prompt check, with nothing sent, or comes after exactly one
    request: the exception of the call itself, or one of the seven
    exceptions of the subscripts and [.strip()]. *)
Theorem raises_classified messages w (e : exn) :
  (get_agent_response service utils messages w).1 = Raise e →
  (e = KeyError (KStr (py "role"))
   ∧ (get_agent_response service utils messages w).2 = w)
  ∨ ∃ E,
      effective_messages messages = Return E
      ∧ outbound (get_agent_response service utils messages w).2
        = outbound w ++ [Request (MODEL_NAME utils) E]
      ∧ ((service (svc w) (Request (MODEL_NAME utils) E)).1 = Raise e
         ∨ e ∈ extraction_errors).
Proof.
  destruct (effective_messages messages) as [E|e0] eqn:HE.
  - rewrite (get_agent_response_sent _ _ _ _ _ HE). simpl.
    intros Hraise. right. exists E. split; [done |]. split; [done |].
    destruct (service _ _) as [[completion|e1] s']; simpl in *.
    + right. unfold finish in Hraise. simpl in Hraise.
      destruct (extract_reply completion) as [reply|e2] eqn:Hreply;
        simpl in Hraise; [done |].
      injection Hraise as <-. by eapply extract_reply_raises.
    + left. by injection Hraise as ->.
  - rewrite (get_agent_response_unsent _ _ _ _ _ HE). simpl.
    intros [= <-]. left. split; [|done].
    destruct messages as [|first rest]; [done |].
    rewrite effective_messages_cons in HE.
    destruct (first !! py "role") as [role|]; [|by injection HE].
    by destruct (decide (role = py "system")).
Qed.


(** X6: only the first choice counts: two completions whose choice lists
    start with the same choice give the same reply or the same exception,
    whatever the other choices and the other keys of the completion. *)
Theorem only_first_choice_used (d d' : gmap pystr pyval) (choice : pyval)
    (rest rest' : list pyval) :
  extract_reply (PyDict (<[py "choices" := PyList (choice :: rest)]> d))
  = extract_reply (PyDict (<[py "choices" := PyList (choice :: rest')]> d')).
Proof.
  unfold extract_reply, completion_content. simpl.
  by rewrite !lookup_insert_eq.
Qed.

(** X7: a reply of whitespace alone (the empty reply included) is no
    error: the function returns, and the message it appends has the empty
    string as content. *)
Theorem blank_reply_gives_empty_content messages E w (completion : pyval) (s' : S) (R : pystr) :
  effective_messages messages = Return E →
  service (svc w) (Request (MODEL_NAME utils) E) = (Return completion, s') →
  completion_content completion = Return (PyStr R) →
  whitespace R →
  (get_agent_response service utils messages w).1
  = Return (E ++ [make_message (py "assistant") []]).
Proof.
  intros HE Hcall Hcontent HR.
  rewrite (get_agent_response_sent _ _ _ _ _ HE). simpl. rewrite Hcall. simpl.
  unfold finish, extract_reply. simpl. rewrite Hcontent. simpl.
  by rewrite (strip_whitespace _ HR).
Qed.

(** X9: a sequence the function returned, with any further messages put
    behind it, is sent as it is by the next call: over the turns of a
    conversation the system message is put in front once and never again. *)
Theorem next_turn_sent_unchanged messages w (out more : list message) w' :
  (get_agent_response service utils messages w).1 = Return out →
  effective_messages (out ++ more) = Return (out ++ more)
  ∧ outbound (get_agent_response service utils (out ++ more) w').2
    = outbound w' ++ [Request (MODEL_NAME utils) (out ++ more)].
Proof.
  intros Hout.
  apply get_agent_response_returns_inv in Hout as (E & reply & _ & Hshape & Hrole).
  assert (effective_messages (out ++ more) = Return (out ++ more)) as Hkeep.
  { apply effective_messages_keeps.
    destruct out as [|first rest]; [done |]. exact Hrole. }
  split; [exact Hkeep |].
  by rewrite (get_agent_response_sent _ _ _ _ _ Hkeep).
Qed.

End FurtherFacts.

(** X8: [.strip()] leaves a reply as it is exactly when the reply neither
    starts nor ends with whitespace, so whitespace inside a reply always
    stays; and stripping twice is stripping once. *)
Theorem strip_fixed_iff (s : pystr) :
  (strip s = s
   ↔ (∀ c, head s = Some c → py_isspace c = false)
     ∧ (∀ c, last s = Some c → py_isspace c = false))
  ∧ strip (strip s) = strip s.
Proof.
  assert (∀ t : pystr,
            (∀ c, head t = Some c → py_isspace c = false) →
            (∀ c, last t = Some c → py_isspace c = false) →
            strip t = t) as Hfixed.
  { intros t Hhead Hlast. unfold strip, rstrip.
    rewrite (lstrip_fixed t Hhead).
    rewrite lstrip_fixed; [apply reverse_involutive |].
    intros c. rewrite head_reverse. apply Hlast. }
  split; [split |].
  - intros Heq. split; intros c Hc; rewrite <- Heq in Hc.
    + by eapply strip_head.
    + by eapply strip_last.
  - intros [Hhead Hlast]. by apply Hfixed.
  - apply Hfixed; [apply strip_head | apply strip_last].
Qed.

(** ** Objects shared between the caller's list and the one returned *)

Section SharingFacts.

Context {S : Type}.
Variable service : S → request → result pyval * S.
Variable utils : utils_module.

Implicit Types (st : state S) (h : gmap loc obj) (l : loc).

Lemma lacks_system_message_head_role (ms : list message) (c : bool) :
  lacks_system_message ms = Return c →
  (c = false ↔ head_role ms = Some (py "system")).
Proof.
  destruct ms as [|first rest]; simpl.
  - intros [= <-]. done.
  - rewrite head_role_cons. unfold message_getitem.
    destruct (first !! py "role") as [role|]; simpl; [|done].
    intros [= <-].
    destruct (decide (role = py "system")) as [->|Hne].
    + by rewrite bool_decide_eq_false_2 by (by intros Hne).
    + rewrite bool_decide_eq_true_2 by done. split; [done | congruence].
Qed.

Lemma effective_messages_at_run l st (ms : list message) :
  snapshot (store st) l = Some ms →
  effective_messages_at l st
  = match lacks_system_message ms with
    | Return true =>
        (m ← alloc (ODict system_message);
         single ← alloc (OList [m]);
         list_add single l) st
    | Return false => (Return l, st)
    | Raise e => (Raise e, st)
    end.
Proof.
  intros Hl. unfold effective_messages_at. unfold mbind at 1, M_bind at 1.
  rewrite (lacks_system_message_at_refines _ _ _ Hl).
  by destruct (lacks_system_message ms) as [[|]|e].
Qed.

Lemma list_add_items (a b : loc) st (xs ys : list loc) :
  store st !! a = Some (OList xs) →
  store st !! b = Some (OList ys) →
  list_add a b st
  = (Return (fresh (dom (store st))),
     State (<[fresh (dom (store st)) := OList (xs ++ ys)]> (store st))
           (outside st)).
Proof.
  intros Ha Hb. unfold list_add, mbind, M_bind, read_list.
  by rewrite Ha, Hb.
Qed.

(** [[d] + l] and [l + [d]] on the items: the new dict is at a location
    the store did not use, and the items of [l] are taken over as they
    are. *)
Lemma prepend_items (d : message) l st (items : list loc) :
  store st !! l = Some (OList items) →
  ∃ p cur st1,
    (m ← alloc (ODict d); single ← alloc (OList [m]); list_add single l) st
    = (Return cur, st1)
    ∧ store st !! p = None
    ∧ store st !! cur = None
    ∧ store st1 !! cur = Some (OList ([p] ++ items)).
Proof.
  intros Hl.
  pose proof (fresh_unused (store st)) as Hp.
  set (p := fresh (dom (store st))) in *.
  set (h1 := <[p := ODict d]> (store st)).
  pose proof (fresh_unused h1) as Hq.
  set (q := fresh (dom h1)) in *.
  set (h2 := <[q := OList [p]]> h1).
  pose proof (fresh_unused h2) as Hcur.
  set (cur := fresh (dom h2)) in *.
  assert (store st ⊆ h1) as Hsub1 by (by apply insert_subseteq).
  assert (h1 ⊆ h2) as Hsub2 by (by apply insert_subseteq).
  exists p, cur, (State (<[cur := OList ([p] ++ items)]> h2) (outside st)).
  split; [|split; [done |split]].
  - unfold mbind, M_bind. simpl. fold p h1 q h2.
    rewrite (list_add_items q l (State h2 (outside st)) [p] items).
    + done.
    + simpl. unfold h2. by rewrite lookup_insert_eq.
    + simpl. eapply lookup_weaken; [exact Hl |]. by etrans.
  - eapply lookup_weaken_None; [exact Hcur |]. by etrans.
  - simpl. by rewrite lookup_insert_eq.
Qed.

Lemma append_items (d : message) l st (items : list loc) :
  store st !! l = Some (OList items) →
  ∃ p cur st1,
    (m ← alloc (ODict d); single ← alloc (OList [m]); list_add l single) st
    = (Return cur, st1)
    ∧ store st !! p = None
    ∧ store st1 !! p = Some (ODict d)
    ∧ store st1 !! cur = Some (OList (items ++ [p])).
Proof.
  intros Hl.
  pose proof (fresh_unused (store st)) as Hp.
  set (p := fresh (dom (store st))) in *.
  set (h1 := <[p := ODict d]> (store st)).
  pose proof (fresh_unused h1) as Hq.
  set (q := fresh (dom h1)) in *.
  set (h2 := <[q := OList [p]]> h1).
  pose proof (fresh_unused h2) as Hcur.
  set (cur := fresh (dom h2)) in *.
  assert (store st ⊆ h1) as Hsub1 by (by apply insert_subseteq).
  assert (h1 ⊆ h2) as Hsub2 by (by apply insert_subseteq).
  assert (h2 !! p = Some (ODict d)) as Hp2.
  { eapply lookup_weaken; [|exact Hsub2]. unfold h1. by rewrite lookup_insert_eq. }
  exists p, cur, (State (<[cur := OList (items ++ [p])]> h2) (outside st)).
  split; [|split; [done |split]].
  - unfold mbind, M_bind. simpl. fold p h1 q h2.
    rewrite (list_add_items l q (State h2 (outside st)) items [p]).
    + done.
    + simpl. eapply lookup_weaken; [exact Hl |]. by etrans.
    + simpl. unfold h2. by rewrite lookup_insert_eq.
  - simpl. rewrite lookup_insert_ne; [exact Hp2 |].
    intros Heq. rewrite Heq in Hcur. congruence.
  - simpl. by rewrite lookup_insert_eq.
Qed.

(** X11: the list that is sent to the service is the caller's own list,
    under a second name, exactly when the history starts with a system
    message (line 81); otherwise it is a list the store did not hold
    before (line 79). *)
Theorem sent_list_is_the_callers_iff l st (ms : list message) (cur : loc) st1 :
  snapshot (store st) l = Some ms →
  effective_messages_at l st = (Return cur, st1) →
  (cur = l ↔ head_role ms = Some (py "system"))
  ∧ (cur = l → st1 = st)
  ∧ (cur ≠ l → store st !! cur = None).
Proof.
  intros Hl Hrun.
  rewrite (effective_messages_at_run _ _ _ Hl) in Hrun.
  pose proof (snapshot_items _ _ _ Hl) as (items & Hitems & _).
  destruct (lacks_system_message ms) as [[|]|e] eqn:Hlacks; [| |done].
  - destruct (prepend_items system_message l st items Hitems)
      as (p & cur' & st1' & Hrun' & _ & Hnew & _).
    rewrite Hrun' in Hrun. injection Hrun as <- <-.
    assert (cur' ≠ l) as Hne by (intros ->; congruence).
    apply lacks_system_message_head_role in Hlacks as [Hto Hfrom].
    split; [split |split].
    + intros Heq. by destruct Hne.
    + intros Hrole. by specialize (Hfrom Hrole).
    + intros Heq. by destruct Hne.
    + intros _. exact Hnew.
  - injection Hrun as <- <-.
    apply lacks_system_message_head_role in Hlacks as [Hto _].
    split; [split |split]; try done.
    intros _. by apply Hto.
Qed.

(** X10: the list that is returned holds the very dict objects of the
    caller's list, in their order, after at most one new dict and before
    exactly one new dict, the assistant message: the messages are shared
    with the caller's list, not copied. *)
Theorem returned_list_shares_messages l st (ms : list message)
    (items : list loc) (l' : loc) :
  snapshot (store st) l = Some ms →
  store st !! l = Some (OList items) →
  let run := get_agent_response_at service utils l st in
  run.1 = Return l' →
  ∃ (pre : list loc) (new : loc),
    store run.2 !! l' = Some (OList (pre ++ items ++ [new]))
    ∧ store st !! new = None
    ∧ (pre = [] ∨ ∃ p, pre = [p] ∧ store st !! p = None).
Proof.
  intros Hl Hitems run Hret. unfold run in *. clear run.
  pose proof (effective_messages_at_refines _ _ _ Hl) as Heff.
  destruct (effective_messages ms) as [E|e] eqn:HE.
  2: { by rewrite (get_agent_response_at_unsent _ _ _ _ _ _ Heff) in Hret. }
  destruct Heff as [(cur & st1 & Hrun1 & Hsub & _ & Hcur) _].
  assert (∃ pre, store st1 !! cur = Some (OList (pre ++ items))
                 ∧ (pre = [] ∨ ∃ p, pre = [p] ∧ store st !! p = None))
    as (pre & Hcur_items & Hpre).
  { pose proof Hrun1 as Hrun.
    rewrite (effective_messages_at_run _ _ _ Hl) in Hrun.
    destruct (lacks_system_message ms) as [[|]|e] eqn:Hlacks; [| |done].
    - destruct (prepend_items system_message l st items Hitems)
        as (p & cur' & st1' & Hrun' & Hp & _ & Hlist).
      rewrite Hrun' in Hrun. injection Hrun as <- <-.
      exists [p]. split; [exact Hlist |]. right. by exists p.
    - injection Hrun as <- <-. exists []. split; [exact Hitems | by left]. }
  rewrite (get_agent_response_at_sent _ _ _ _ _ _ _ Hrun1 Hcur) in Hret |- *.
  destruct (litellm_completion service (MODEL_NAME utils) E (outside st1))
    as [[completion|e] w'] eqn:Hcall; simpl in Hret |- *; [|done].
  destruct (extract_reply completion) as [reply|e]; [|done].
  destruct (append_items (assistant_message reply) cur
              (State (store st1) w') (pre ++ items) Hcur_items)
    as (new & l3 & st3 & Hrun3 & Hnew & _ & Hlist).
  rewrite Hrun3 in Hret |- *. simpl in Hret |- *. injection Hret as <-.
  exists pre, new. split; [|split].
  - by rewrite app_assoc.
  - by eapply lookup_weaken_None.
  - exact Hpre.
Qed.

End SharingFacts.

(** ** Instances of the further properties *)

(** The store of scenario C with its three objects at other locations. *)
Definition scenario_C_state_moved : state unit :=
  State {[ 10%positive := OList [11%positive; 12%positive];
           11%positive := ODict custom_system;
           12%positive := ODict user_hi ]} quiet.

Lemma effective_user_hi :
  effective_messages [user_hi] = Return [system_message; user_hi].
Proof.
  apply effective_messages_prepends. right. exists (py "user").
  split; [apply make_message_role | exact py_user_not_system].
Qed.

Lemma history_preserved_scenario_B :
  ∃ reply : pystr,
    (head_role [user_eggs] = Some (py "system")
     ∧ [system_message; user_eggs; assistant_message (py "## Omelette")]
       = [user_eggs] ++ [assistant_message reply])
    ∨ (head_role [user_eggs] ≠ Some (py "system")
       ∧ [system_message; user_eggs; assistant_message (py "## Omelette")]
         = [system_message] ++ [user_eggs] ++ [assistant_message reply]).
Proof.
  apply (history_preserved
           (fixed_service (Return (completion_of (PyStr (py "## Omelette")))))
           default_utils [user_eggs] quiet).
  by vm_compute.
Defined.

Lemma raises_classified_no_choices :
  (KeyError (KStr (py "choices")) = KeyError (KStr (py "role"))
   ∧ (get_agent_response (fixed_service (Return (PyDict ∅)))
        default_utils [user_hi] quiet).2 = quiet)
  ∨ ∃ E,
      effective_messages [user_hi] = Return E
      ∧ outbound (get_agent_response (fixed_service (Return (PyDict ∅)))
                    default_utils [user_hi] quiet).2
        = outbound quiet ++ [Request (MODEL_NAME default_utils) E]
      ∧ ((fixed_service (Return (PyDict ∅)) (svc quiet)
            (Request (MODEL_NAME default_utils) E)).1
         = Raise (KeyError (KStr (py "choices")))
         ∨ KeyError (KStr (py "choices")) ∈ extraction_errors).
Proof.
  apply (raises_classified (fixed_service (Return (PyDict ∅)))
           default_utils [user_hi] quiet).
  by vm_compute.
Defined.


Lemma blank_reply_gives_empty_content_blanks :
  (get_agent_response
     (fixed_service (Return (completion_of (PyStr (py "
  	 ")))))
     default_utils [user_hi] quiet).1
  = Return ([system_message; user_hi] ++ [make_message (py "assistant") []]).
Proof.
  apply (blank_reply_gives_empty_content
           (fixed_service (Return (completion_of (PyStr (py "
  	 ")))))
           default_utils [user_hi] [system_message; user_hi] quiet
           (completion_of (PyStr (py "
  	 "))) tt (py "
  	 ")).
  - exact effective_user_hi.
  - reflexivity.
  - apply completion_content_of.
  - unfold whitespace. by vm_compute; repeat constructor.
Defined.

Lemma next_turn_sent_unchanged_scenario_B :
  effective_messages
    ([system_message; user_eggs; assistant_message (py "## Omelette")]
     ++ [user_hi])
  = Return ([system_message; user_eggs; assistant_message (py "## Omelette")]
            ++ [user_hi])
  ∧ outbound
      (get_agent_response
         (fixed_service (Return (completion_of (PyStr (py "## Omelette")))))
         default_utils
         ([system_message; user_eggs; assistant_message (py "## Omelette")]
          ++ [user_hi]) quiet).2
    = outbound quiet
      ++ [Request (MODEL_NAME default_utils)
            ([system_message; user_eggs; assistant_message (py "## Omelette")]
             ++ [user_hi])].
Proof.
  apply (next_turn_sent_unchanged
           (fixed_service (Return (completion_of (PyStr (py "## Omelette")))))
           default_utils [user_eggs] quiet).
  by vm_compute.
Defined.

Lemma sent_list_is_the_callers_scenario_C :
  (1%positive = 1%positive
   ↔ head_role [custom_system; user_hi] = Some (py "system"))
  ∧ (1%positive = 1%positive → scenario_C_state = scenario_C_state)
  ∧ (1%positive ≠ 1%positive
     → store scenario_C_state !! 1%positive = None).
Proof.
  apply (sent_list_is_the_callers_iff 1%positive scenario_C_state
           [custom_system; user_hi] 1%positive scenario_C_state).
  - reflexivity.
  - by vm_compute.
Defined.

Lemma returned_list_shares_messages_scenario_C :
  ∃ (pre : list loc) (new : loc),
    store (get_agent_response_at
             (fixed_service (Return (completion_of (PyStr (py "Hello")))))
             default_utils 1%positive scenario_C_state).2 !! 6%positive
    = Some (OList (pre ++ [2%positive; 3%positive] ++ [new]))
    ∧ store scenario_C_state !! new = None
    ∧ (pre = [] ∨ ∃ p, pre = [p] ∧ store scenario_C_state !! p = None).
Proof.
  apply (returned_list_shares_messages
           (fixed_service (Return (completion_of (PyStr (py "Hello")))))
           default_utils 1%positive scenario_C_state
           [custom_system; user_hi] [2%positive; 3%positive] 6%positive).
  - reflexivity.
  - reflexivity.
  - by vm_compute.
Defined.

Lemma get_agent_response_at_reads_alike_scenario_C :
  let run1 :=
    get_agent_response_at
      (fixed_service (Return (completion_of (PyStr (py "Hello")))))
      default_utils 1%positive scenario_C_state in
  let run2 :=
    get_agent_response_at
      (fixed_service (Return (completion_of (PyStr (py "Hello")))))
      default_utils 10%positive scenario_C_state_moved in
  match run1.1, run2.1 with
  | Return l1', Return l2' =>
      snapshot (store run1.2) l1' = snapshot (store run2.2) l2'
  | Raise e1, Raise e2 => e1 = e2
  | _, _ => False
  end.
Proof.
  apply (get_agent_response_at_reads_alike
           (fixed_service (Return (completion_of (PyStr (py "Hello")))))
           default_utils 1%positive 10%positive
           scenario_C_state scenario_C_state_moved [custom_system; user_hi]).
  - reflexivity.
  - reflexivity.
  - reflexivity.
Defined.
